(** * xsqlparser / sqlast: the query renderer of [query.go]

    A shallow embedding of [sqlast/query.go]: the node types of a SQL
    query tree and their [Eval] methods, which print the tree back as
    SQL text.

    Conventions of the embedding.

    - A Go [string] is a [string]; [+] and [+=] on strings are [++].
    - [fmt.Sprintf] is modelled by [Sprintf] below for the only verb the
      file uses, [%s]; [strings.Join] by [strings_Join].
    - A field is an [option] exactly when [query.go] tests it against
      [nil] before using it ([Relation], [Selection], [Having], [Limit],
      [Alias], [ASC]).  Every other pointer or interface field is used
      by the source without a [nil] test and is a plain value here: a
      [nil] there makes the Go method panic where it is reached (a
      [nil] [Constant] only under the four operators that consult it).
      A join built without a constraint, as [Cross] and [Implicit]
      joins naturally are, is represented with an arbitrary one: those
      branches of [Join.Eval] never read it.
    - [JoinOperator] is a Go [int], hence a [Z]: values outside the six
      named constants are representable, as they are in Go.
    - The interface [ASTNode] is implemented by the expression nodes of
      other files of the package.  [query.go] only ever calls their
      [Eval] method, so they are a type parameter [ASTNode] with a
      function [ASTNode_Eval]. *)

From Stdlib Require Import String Ascii List ZArith Bool Lia.
Import ListNotations.
Local Open Scope list_scope.
Local Open Scope string_scope.

(** ** Go library functions used by [query.go] *)

(** [strings.Join(elems, sep)]. *)
Definition strings_Join (elems : list string) (sep : string) : string :=
  String.concat sep elems.

(** What [fmt.Sprintf] prints for operands left over once the format is
    exhausted: nothing when there are none, and otherwise the
    [%!(EXTRA string=..., ...)] marker. *)
Definition Sprintf_extra (a : list string) : string :=
  match a with
  | [] => ""
  | _ => "%!(EXTRA " ++ String.concat ", " (map (fun v => "string=" ++ v) a) ++ ")"
  end.

(** [fmt.Sprintf(format, a...)] for string operands and the verb [%s]:
    each [%s] consumes the next operand, a [%s] with no operand left
    prints [%!s(MISSING)], every other character is copied. *)
Fixpoint Sprintf (format : string) (a : list string) : string :=
  match format with
  | EmptyString => Sprintf_extra a
  | String c rest =>
      match rest with
      | String d rest' =>
          if (Ascii.eqb c "%" && Ascii.eqb d "s")%bool then
            match a with
            | x :: a' => x ++ Sprintf rest' a'
            | [] => "%!s(MISSING)" ++ Sprintf rest' []
            end
          else String c (Sprintf rest a)
      | EmptyString => String c (Sprintf_extra a)
      end
  end.

(** ** Identifiers *)

(** [type SQLIdent string]: [query.go] converts it with [string( *i)]. *)
Definition SQLIdent : Type := string.

(** Modelled from the spec: [SQLIdent.Eval] is declared outside
    [query.go]; an identifier renders as its name verbatim, without
    quoting. *)
Definition SQLIdent_Eval (i : SQLIdent) : string := i.

(** Modelled from the spec: the type [SQLObjectName] and its [Eval] are
    declared outside [query.go]; an object name is an ordered sequence
    of identifiers rendered dot-joined. *)
Definition SQLObjectName : Type := list SQLIdent.

Definition SQLObjectName_Eval (n : SQLObjectName) : string :=
  strings_Join (map SQLIdent_Eval n) ".".

(** Modelled from the spec: the helper [commaSeparatedString] is
    declared outside [query.go]; it renders every node of a list and
    joins the renders with a comma followed by a single space. *)
Definition commaSeparatedString {A : Type} (eval : A -> string) (list : list A) : string :=
  strings_Join (map eval list) ", ".

(** ** Set operators *)

Inductive SQLSetOperator : Type :=
| UnionOperator
| ExceptOperator
| IntersectOperator.

Definition SQLSetOperator_Eval (o : SQLSetOperator) : string :=
  match o with
  | UnionOperator => "UNION"
  | ExceptOperator => "EXCEPT"
  | IntersectOperator => "INTERSECT"
  end.

(** ** Join operators *)

Definition JoinOperator : Type := Z.

Definition Inner : JoinOperator := 0%Z.
Definition LeftOuter : JoinOperator := 1%Z.
Definition RightOuter : JoinOperator := 2%Z.
Definition FullOuter : JoinOperator := 3%Z.
Definition Implicit : JoinOperator := 4%Z.
Definition Cross : JoinOperator := 5%Z.

Section Nodes.

Variable ASTNode : Type.
Variable ASTNode_Eval : ASTNode -> string.

(** ** Select items *)

Inductive SQLSelectItem : Type :=
| UnnamedExpression (Node : ASTNode)
| ExpressionWithAlias (Expr : ASTNode) (Alias : SQLIdent)
| QualifiedWildcard (Prefix : SQLObjectName)
| Wildcard.

Definition SQLSelectItem_Eval (i : SQLSelectItem) : string :=
  match i with
  | UnnamedExpression Node => ASTNode_Eval Node
  | ExpressionWithAlias Expr Alias =>
      Sprintf "%s AS %s" [ASTNode_Eval Expr; SQLIdent_Eval Alias]
  | QualifiedWildcard Prefix => Sprintf "%s.*" [SQLObjectName_Eval Prefix]
  | Wildcard => "*"
  end.

(** ** Join constraints *)

Inductive JoinConstant : Type :=
| OnJoinConstant (Node : ASTNode)
| UsingConstant (Idents : list SQLIdent)
| NaturalConstant.

Definition JoinConstant_Prefix (c : JoinConstant) : string :=
  match c with
  | OnJoinConstant _ => ""
  | UsingConstant _ => ""
  | NaturalConstant => "NATURAL "
  end.

Definition JoinConstant_Suffix (c : JoinConstant) : string :=
  match c with
  | OnJoinConstant Node => Sprintf " ON %s" [ASTNode_Eval Node]
  | UsingConstant Idents =>
      let str := fold_left (fun str i => (str ++ [i : string])%list) Idents [] in
      Sprintf " USING(%s)" [strings_Join str ", "]
  | NaturalConstant => ""
  end.

(** ** Order-by expressions *)

Record SQLOrderByExpr : Type := mkSQLOrderByExpr {
  OrderBy_Expr : ASTNode;
  OrderBy_ASC : option bool
}.

Definition SQLOrderByExpr_Eval (s : SQLOrderByExpr) : string :=
  match OrderBy_ASC s with
  | None => ASTNode_Eval (OrderBy_Expr s)
  | Some true => Sprintf "%s ASC" [ASTNode_Eval (OrderBy_Expr s)]
  | Some false => Sprintf "%s DESC" [ASTNode_Eval (OrderBy_Expr s)]
  end.

(** ** Queries, set expressions, selects, table factors and joins

    The six types refer to each other: a query has a set expression
    as body, a select has a relation and joins, a derived table is a
    query again.  [SelectBody] is a [*SQLSelect] stored directly in a
    field of interface type [SQLSetExpr], which Go allows because
    [*SQLSelect] has an [Eval] method; the tests of the package build
    their queries that way. *)

Inductive SQLQuery : Type :=
| mkSQLQuery (CTEs : list CTE) (Body : SQLSetExpr)
             (OrderBy : list SQLOrderByExpr) (Limit : option ASTNode)
with CTE : Type :=
| mkCTE (Alias : SQLIdent) (Query : SQLQuery)
with SQLSetExpr : Type :=
| SelectExpr (Select : SQLSelect)
| QueryExpr (Query : SQLQuery)
| SetOperationExpr (Op : SQLSetOperator) (All : bool) (Left Right : SQLSetExpr)
| SelectBody (Select : SQLSelect)
with SQLSelect : Type :=
| mkSQLSelect (Distinct : bool) (Projection : list SQLSelectItem)
              (Relation : option TableFactor) (Joins : list Join)
              (Selection : option ASTNode) (GroupBy : list ASTNode)
              (Having : option ASTNode)
with TableFactor : Type :=
| Table (Name : SQLObjectName) (Alias : option SQLIdent)
        (Args : list ASTNode) (WithHints : list ASTNode)
| Derived (SubQuery : SQLQuery) (Alias : option SQLIdent)
with Join : Type :=
| mkJoin (Relation : TableFactor) (Op : JoinOperator) (Constant : JoinConstant).

Fixpoint SQLQuery_Eval (s : SQLQuery) : string :=
  match s with
  | mkSQLQuery CTEs Body OrderBy Limit =>
      let q := "" in
      let q :=
        if negb (Nat.eqb (List.length CTEs) 0) then
          let q := q ++ "WITH " in
          let ctestrs :=
            fold_left
              (fun ctestrs cte =>
                 match cte with
                 | mkCTE Alias Query =>
                     (ctestrs
                        ++ [Sprintf "%s AS (%s)"
                              [SQLIdent_Eval Alias; SQLQuery_Eval Query]])%list
                 end)
              CTEs [] in
          q ++ (strings_Join ctestrs ", " ++ " ")
        else q in
      let q := q ++ SQLSetExpr_Eval Body in
      let q :=
        if negb (Nat.eqb (List.length OrderBy) 0) then
          q ++ Sprintf " ORDER BY %s" [commaSeparatedString SQLOrderByExpr_Eval OrderBy]
        else q in
      let q :=
        match Limit with
        | Some l => q ++ Sprintf " LIMIT %s" [ASTNode_Eval l]
        | None => q
        end in
      q
  end
with SQLSetExpr_Eval (e : SQLSetExpr) : string :=
  match e with
  | SelectExpr Select => SQLSelect_Eval Select
  | QueryExpr Query => Sprintf "(%s)" [SQLQuery_Eval Query]
  | SetOperationExpr Op All Left Right =>
      let allStr := if All then " ALL" else "" in
      Sprintf "%s %s%s %s"
        [SQLSetExpr_Eval Left; SQLSetOperator_Eval Op; allStr; SQLSetExpr_Eval Right]
  | SelectBody Select => SQLSelect_Eval Select
  end
with SQLSelect_Eval (s : SQLSelect) : string :=
  match s with
  | mkSQLSelect Distinct Projection Relation Joins Selection GroupBy Having =>
      let q := "SELECT " in
      let q := if Distinct then q ++ "DISTINCT " else q in
      let q := q ++ commaSeparatedString SQLSelectItem_Eval Projection in
      let q :=
        match Relation with
        | Some r => q ++ Sprintf " FROM %s" [TableFactor_Eval r]
        | None => q
        end in
      let q := fold_left (fun q j => q ++ Join_Eval j) Joins q in
      let q :=
        match Selection with
        | Some n => q ++ Sprintf " WHERE %s" [ASTNode_Eval n]
        | None => q
        end in
      let q :=
        if negb (Nat.eqb (List.length GroupBy) 0) then
          q ++ Sprintf " GROUP BY %s" [commaSeparatedString ASTNode_Eval GroupBy]
        else q in
      let q :=
        match Having with
        | Some n => q ++ Sprintf " HAVING %s" [ASTNode_Eval n]
        | None => q
        end in
      q
  end
with TableFactor_Eval (t : TableFactor) : string :=
  match t with
  | Table Name Alias Args WithHints =>
      let s := SQLObjectName_Eval Name in
      let s :=
        if negb (Nat.eqb (List.length Args) 0) then
          Sprintf "%s(%s)" [s; commaSeparatedString ASTNode_Eval Args]
        else s in
      let s :=
        match Alias with
        | Some a => Sprintf "%s AS %s" [s; SQLIdent_Eval a]
        | None => s
        end in
      let s :=
        if negb (Nat.eqb (List.length WithHints) 0) then
          Sprintf "%s WITH (%s)" [s; commaSeparatedString ASTNode_Eval WithHints]
        else s in
      s
  | Derived SubQuery Alias =>
      let s := SQLQuery_Eval SubQuery in
      match Alias with
      | Some a => Sprintf "%s AS %s" [s; SQLIdent_Eval a]
      | None => s
      end
  end
with Join_Eval (j : Join) : string :=
  match j with
  | mkJoin Relation Op Constant =>
      if Z.eqb Op Inner then
        Sprintf " %sJOIN %s%s"
          [JoinConstant_Prefix Constant; TableFactor_Eval Relation;
           JoinConstant_Suffix Constant]
      else if Z.eqb Op Cross then
        Sprintf " CROSS JOIN%s" [TableFactor_Eval Relation]
      else if Z.eqb Op Implicit then
        Sprintf ", %s" [TableFactor_Eval Relation]
      else if Z.eqb Op LeftOuter then
        Sprintf " %sLEFT JOIN %s%s"
          [JoinConstant_Prefix Constant; TableFactor_Eval Relation;
           JoinConstant_Suffix Constant]
      else if Z.eqb Op RightOuter then
        Sprintf " %sRIGHT JOIN %s%s"
          [JoinConstant_Prefix Constant; TableFactor_Eval Relation;
           JoinConstant_Suffix Constant]
      else if Z.eqb Op FullOuter then
        Sprintf " %sFULL JOIN %s%s"
          [JoinConstant_Prefix Constant; TableFactor_Eval Relation;
           JoinConstant_Suffix Constant]
      else ""
  end.

End Nodes.

Arguments UnnamedExpression {ASTNode} Node.
Arguments ExpressionWithAlias {ASTNode} Expr Alias.
Arguments QualifiedWildcard {ASTNode} Prefix.
Arguments Wildcard {ASTNode}.
Arguments OnJoinConstant {ASTNode} Node.
Arguments UsingConstant {ASTNode} Idents.
Arguments NaturalConstant {ASTNode}.
Arguments mkSQLOrderByExpr {ASTNode} _ _.
Arguments OrderBy_Expr {ASTNode} _.
Arguments OrderBy_ASC {ASTNode} _.
Arguments mkSQLQuery {ASTNode} CTEs Body OrderBy Limit.
Arguments mkCTE {ASTNode} Alias Query.
Arguments SelectExpr {ASTNode} Select.
Arguments QueryExpr {ASTNode} Query.
Arguments SetOperationExpr {ASTNode} Op All Left Right.
Arguments SelectBody {ASTNode} Select.
Arguments mkSQLSelect {ASTNode} Distinct Projection Relation Joins Selection GroupBy Having.
Arguments Table {ASTNode} Name Alias Args WithHints.
Arguments Derived {ASTNode} SubQuery Alias.
Arguments mkJoin {ASTNode} Relation Op Constant.
Arguments SQLSelectItem_Eval {ASTNode} ASTNode_Eval i.
Arguments JoinConstant_Prefix {ASTNode} c.
Arguments JoinConstant_Suffix {ASTNode} ASTNode_Eval c.
Arguments SQLOrderByExpr_Eval {ASTNode} ASTNode_Eval s.
Arguments SQLQuery_Eval {ASTNode} ASTNode_Eval s.
Arguments SQLSetExpr_Eval {ASTNode} ASTNode_Eval e.
Arguments SQLSelect_Eval {ASTNode} ASTNode_Eval s.
Arguments TableFactor_Eval {ASTNode} ASTNode_Eval t.
Arguments Join_Eval {ASTNode} ASTNode_Eval j.


(** ** Field selectors *)

Section Fields.

Context {ASTNode : Type}.

Definition SQLQuery_CTEs (s : SQLQuery ASTNode) : list (CTE ASTNode) :=
  match s with mkSQLQuery CTEs _ _ _ => CTEs end.

Definition SQLQuery_Body (s : SQLQuery ASTNode) : SQLSetExpr ASTNode :=
  match s with mkSQLQuery _ Body _ _ => Body end.

Definition SQLQuery_OrderBy (s : SQLQuery ASTNode) : list (SQLOrderByExpr ASTNode) :=
  match s with mkSQLQuery _ _ OrderBy _ => OrderBy end.

Definition SQLQuery_Limit (s : SQLQuery ASTNode) : option ASTNode :=
  match s with mkSQLQuery _ _ _ Limit => Limit end.

Definition CTE_Alias (c : CTE ASTNode) : SQLIdent :=
  match c with mkCTE Alias _ => Alias end.

Definition CTE_Query (c : CTE ASTNode) : SQLQuery ASTNode :=
  match c with mkCTE _ Query => Query end.

Definition SQLSelect_Distinct (s : SQLSelect ASTNode) : bool :=
  match s with mkSQLSelect Distinct _ _ _ _ _ _ => Distinct end.

Definition SQLSelect_Projection (s : SQLSelect ASTNode) : list (SQLSelectItem ASTNode) :=
  match s with mkSQLSelect _ Projection _ _ _ _ _ => Projection end.

Definition SQLSelect_Relation (s : SQLSelect ASTNode) : option (TableFactor ASTNode) :=
  match s with mkSQLSelect _ _ Relation _ _ _ _ => Relation end.

Definition SQLSelect_Joins (s : SQLSelect ASTNode) : list (Join ASTNode) :=
  match s with mkSQLSelect _ _ _ Joins _ _ _ => Joins end.

Definition SQLSelect_Selection (s : SQLSelect ASTNode) : option ASTNode :=
  match s with mkSQLSelect _ _ _ _ Selection _ _ => Selection end.

Definition SQLSelect_GroupBy (s : SQLSelect ASTNode) : list ASTNode :=
  match s with mkSQLSelect _ _ _ _ _ GroupBy _ => GroupBy end.

Definition SQLSelect_Having (s : SQLSelect ASTNode) : option ASTNode :=
  match s with mkSQLSelect _ _ _ _ _ _ Having => Having end.

Definition Join_Relation (j : Join ASTNode) : TableFactor ASTNode :=
  match j with mkJoin Relation _ _ => Relation end.

Definition Join_Op (j : Join ASTNode) : JoinOperator :=
  match j with mkJoin _ Op _ => Op end.

Definition Join_Constant (j : Join ASTNode) : JoinConstant ASTNode :=
  match j with mkJoin _ _ Constant => Constant end.

End Fields.

(** ** Substrings *)

(** [strings.Contains(s, substr)]: does [substr] occur in [s]? *)
Fixpoint strings_Contains (s substr : string) : bool :=
  String.prefix substr s
  || match s with
     | EmptyString => false
     | String _ s' => strings_Contains s' substr
     end.

(** Does the character [c] occur in [s]? *)
Fixpoint mentions (c : ascii) (s : string) : bool :=
  match s with
  | EmptyString => false
  | String c' s' => Ascii.eqb c c' || mentions c s'
  end.

(** ** The fixtures of [query_test.go]

    The expression nodes of the tests ([SQLIdentifier], [SQLFunction],
    [SQLBinaryExpr], ...) live in other files; here such a node is
    given by the text it renders to. *)

Definition TextNode : Type := string.

Definition TextNode_Eval (n : TextNode) : string := n.

Module Fixtures.

Definition simple_select : SQLSelect TextNode :=
  mkSQLSelect false [UnnamedExpression "test"]
    (Some (Table ["test_table"] None [] [])) [] None [] None.

Definition natural_join : SQLSelect TextNode :=
  mkSQLSelect false [UnnamedExpression "test"]
    (Some (Table ["test_table"] None [] []))
    [mkJoin (Table ["test_table2"] None [] []) Inner NaturalConstant]
    None [] None.

Definition where_clause : SQLSelect TextNode :=
  mkSQLSelect false [UnnamedExpression "test"]
    (Some (Table ["test_table"] None [] [])) []
    (Some "test_table.column1 = 'test'") [] None.

Definition count_and_join : SQLSelect TextNode :=
  mkSQLSelect false [ExpressionWithAlias "COUNT(t1.id)" "c"]
    (Some (Table ["test_table"] (Some "t1") [] []))
    [mkJoin (Table ["test_table2"] (Some "t2") [] []) LeftOuter
            (OnJoinConstant "t1.id = t2.test_table_id")]
    None [] None.

Definition group_by : SQLSelect TextNode :=
  mkSQLSelect false
    [UnnamedExpression "COUNT(customer_id)"; QualifiedWildcard ["country"]]
    (Some (Table ["customers"] None [] [])) [] None ["country"] None.

Definition having : SQLSelect TextNode :=
  mkSQLSelect false
    [UnnamedExpression "COUNT(customer_id)"; UnnamedExpression "country"]
    (Some (Table ["customers"] None [] [])) [] None ["country"]
    (Some "COUNT(customer_id) > 3").

Definition regional_sales : SQLQuery TextNode :=
  mkSQLQuery []
    (SelectBody
       (mkSQLSelect false
          [UnnamedExpression "region"; ExpressionWithAlias "SUM(amount)" "total_sales"]
          (Some (Table ["orders"] None [] [])) [] None ["region"] None))
    [] None.

Definition product_units (GroupBy : list TextNode) : SQLSelect TextNode :=
  mkSQLSelect false
    [UnnamedExpression "product"; ExpressionWithAlias "SUM(quantity)" "product_units"]
    (Some (Table ["orders"] None [] [])) []
    (Some "region IN (SELECT region FROM top_regions)") GroupBy None.

Definition with_cte : SQLQuery TextNode :=
  mkSQLQuery [mkCTE "regional_sales" regional_sales]
    (SelectBody (product_units ["region"; "product"])) [] None.

Definition order_by_and_limit : SQLQuery TextNode :=
  mkSQLQuery [] (SelectBody (product_units []))
    [mkSQLOrderByExpr "product_units" None] (Some "100").

(** Inputs the tests do not cover. *)

Definition star : SQLSelect TextNode :=
  mkSQLSelect false [Wildcard] None [] None [] None.

Definition union_all_then_union : SQLSetExpr TextNode :=
  SetOperationExpr UnionOperator false
    (SetOperationExpr UnionOperator true (SelectExpr star) (SelectExpr star))
    (SelectExpr star).

Definition cross_join_on : Join TextNode :=
  mkJoin (Table ["t"] None [] []) Cross (OnJoinConstant "a = b").

Definition cross_join_natural : Join TextNode :=
  mkJoin (Table ["t"] None [] []) Cross NaturalConstant.

Definition unknown_join : Join TextNode :=
  mkJoin (Table ["t"] None [] []) 6%Z NaturalConstant.

Definition joins_without_relation : SQLSelect TextNode :=
  mkSQLSelect false [UnnamedExpression "a"] None
    [mkJoin (Table ["t"] None [] []) Inner (UsingConstant ["id"; "k"])]
    None [] None.

End Fixtures.

(** ** The named join operators

    The [const] block of [query.go] names six operators; every other
    [int] is an operator the [switch] of [Join.Eval] does not know. *)

Definition JoinOperators : list JoinOperator :=
  [Inner; LeftOuter; RightOuter; FullOuter; Implicit; Cross].

Definition known_operator (op : JoinOperator) : bool :=
  existsb (Z.eqb op) JoinOperators.

Module Samples.

Definition t1 : TableFactor TextNode := Table ["t1"] None [] [].

Definition t2 : TableFactor TextNode := Table ["t2"] (Some "b") [] [].

Definition t3 : TableFactor TextNode := Table ["s"; "t3"] None [] [].

Definition implicit_joins : list (Join TextNode) :=
  [mkJoin t2 Implicit NaturalConstant; mkJoin t3 Implicit (OnJoinConstant "x")].

Definition left_join : Join TextNode :=
  mkJoin t2 LeftOuter (OnJoinConstant "t1.id = b.id").

Definition mixed_joins : SQLSelect TextNode :=
  mkSQLSelect true [Wildcard] (Some t1)
    [mkJoin t3 7%Z NaturalConstant; left_join] (Some "b.k > 0") [] None.

Definition with_two_ctes : SQLQuery TextNode :=
  mkSQLQuery
    [mkCTE "a" Fixtures.regional_sales;
     mkCTE "b" (mkSQLQuery [] (SelectExpr Fixtures.star) [] (Some "1"))]
    (SelectExpr Fixtures.simple_select) [] None.

End Samples.

(** * Properties *)

(** ** The tests of [query_test.go], replayed on the embedding *)

Example test_simple_select :
  SQLSelect_Eval TextNode_Eval Fixtures.simple_select = "SELECT test FROM test_table".
Proof. reflexivity. Qed.

Example test_join :
  SQLSelect_Eval TextNode_Eval Fixtures.natural_join
  = "SELECT test FROM test_table NATURAL JOIN test_table2".
Proof. reflexivity. Qed.

Example test_where :
  SQLSelect_Eval TextNode_Eval Fixtures.where_clause
  = "SELECT test FROM test_table WHERE test_table.column1 = 'test'".
Proof. reflexivity. Qed.

Example test_count_and_join :
  SQLSelect_Eval TextNode_Eval Fixtures.count_and_join
  = "SELECT COUNT(t1.id) AS c FROM test_table AS t1 LEFT JOIN test_table2 AS t2 ON t1.id = t2.test_table_id".
Proof. reflexivity. Qed.

Example test_group_by :
  SQLSelect_Eval TextNode_Eval Fixtures.group_by
  = "SELECT COUNT(customer_id), country.* FROM customers GROUP BY country".
Proof. reflexivity. Qed.

Example test_having :
  SQLSelect_Eval TextNode_Eval Fixtures.having
  = "SELECT COUNT(customer_id), country FROM customers GROUP BY country HAVING COUNT(customer_id) > 3".
Proof. reflexivity. Qed.

Example test_with_cte :
  SQLQuery_Eval TextNode_Eval Fixtures.with_cte
  = "WITH regional_sales AS (SELECT region, SUM(amount) AS total_sales FROM orders GROUP BY region) SELECT product, SUM(quantity) AS product_units FROM orders WHERE region IN (SELECT region FROM top_regions) GROUP BY region, product".
Proof. reflexivity. Qed.

Example test_order_by_and_limit :
  SQLQuery_Eval TextNode_Eval Fixtures.order_by_and_limit
  = "SELECT product, SUM(quantity) AS product_units FROM orders WHERE region IN (SELECT region FROM top_regions) ORDER BY product_units LIMIT 100".
Proof. reflexivity. Qed.

(** ** String and loop lemmas *)

Lemma append_assoc (a b c : string) : (a ++ b) ++ c = a ++ (b ++ c).
Proof.
  induction a as [|ch a IH]; simpl.
  - reflexivity.
  - now rewrite IH.
Qed.

Lemma append_nil_r (a : string) : a ++ "" = a.
Proof.
  induction a as [|ch a IH]; simpl; [reflexivity | now rewrite IH].
Qed.

Lemma concat_nosep_cons (x : string) (xs : list string) :
  String.concat "" (x :: xs) = x ++ String.concat "" xs.
Proof.
  destruct xs; simpl; [now rewrite append_nil_r | reflexivity].
Qed.

(** A [range] loop whose body is [q += f(x)] appends the pieces in list
    order. *)
Lemma range_append {A : Type} (f : A -> string) (l : list A) (q : string) :
  fold_left (fun q x => q ++ f x) l q = q ++ String.concat "" (map f l).
Proof.
  revert q; induction l as [|x l IH]; intros q.
  - simpl. now rewrite append_nil_r.
  - cbn [fold_left map]. rewrite IH, concat_nosep_cons. apply append_assoc.
Qed.

(** A [range] loop whose body is [out = append(out, g(x))] collects the
    images in list order. *)
Lemma range_collect {A B : Type} (body : list B -> A -> list B) (g : A -> B)
      (l : list A) (out : list B) :
  (forall acc x, body acc x = (acc ++ [g x])%list) ->
  fold_left body l out = (out ++ map g l)%list.
Proof.
  intros Hbody. revert out; induction l as [|x l IH]; intros out.
  - simpl. now rewrite app_nil_r.
  - cbn [fold_left map]. rewrite Hbody, IH, <- app_assoc. reflexivity.
Qed.

Ltac string_normalize :=
  repeat (rewrite ?append_assoc, ?append_nil_r; simpl).

(** ** Substring lemmas *)

Lemma prefix_nil_l (s : string) : String.prefix "" s = true.
Proof. destruct s; reflexivity. Qed.

Lemma prefix_iff (p s : string) :
  String.prefix p s = true <-> exists b, s = p ++ b.
Proof.
  revert s; induction p as [|c p IH]; intros s.
  - rewrite prefix_nil_l. split; [exists s; reflexivity | reflexivity].
  - destruct s as [|x s]; simpl.
    + split; [discriminate | intros [b Hb]; discriminate Hb].
    + destruct (ascii_dec c x) as [->|Hne].
      * rewrite IH. split; intros [b Hb]; exists b.
        -- now rewrite Hb.
        -- now injection Hb.
      * split; [discriminate | intros [b Hb]].
        injection Hb as Hx _. now elim Hne.
Qed.

(** [strings_Contains s substr] holds exactly when [s] splits around an
    occurrence of [substr]. *)
Lemma strings_Contains_iff (s substr : string) :
  strings_Contains s substr = true <-> exists a b, s = a ++ substr ++ b.
Proof.
  induction s as [|x s IH]; cbn [strings_Contains]; rewrite orb_true_iff.
  - split.
    + intros [H|H]; [|discriminate H].
      apply prefix_iff in H as [b Hb]. now exists "", b.
    + intros [a [b Hab]]. left. apply prefix_iff.
      destruct a; [now exists b | discriminate Hab].
  - rewrite IH. split.
    + intros [H|[a [b Hab]]].
      * apply prefix_iff in H as [b Hb]. now exists "", b.
      * exists (String x a), b. simpl. now rewrite Hab.
    + intros [a [b Hab]]. destruct a as [|y a].
      * left. apply prefix_iff. now exists b.
      * right. injection Hab as _ Hs. now exists a, b.
Qed.

(** A pattern without the character [sep] begins at the front of
    [a ++ sep ++ b] only if it begins at the front of [a]. *)
Lemma prefix_across (sep : ascii) (p a b : string) :
  mentions sep p = false ->
  String.prefix p (a ++ String sep b) = String.prefix p a.
Proof.
  revert p; induction a as [|x a IH]; intros p Hp.
  - destruct p as [|c p]; [reflexivity|].
    simpl in *. apply orb_false_iff in Hp as [Hc _].
    destruct (ascii_dec c sep) as [->|_]; [|reflexivity].
    now rewrite Ascii.eqb_refl in Hc.
  - destruct p as [|c p]; [reflexivity|].
    simpl in *. apply orb_false_iff in Hp as [_ Hp].
    destruct (ascii_dec c x); [now apply IH | reflexivity].
Qed.

(** Hence such a pattern occurs in [a ++ sep ++ b] exactly when it
    occurs in [a] or in [b]. *)
Lemma strings_Contains_across (sep : ascii) (p a b : string) :
  mentions sep p = false ->
  strings_Contains (a ++ String sep b) p
  = strings_Contains a p || strings_Contains b p.
Proof.
  intros Hp. induction a as [|x a IH].
  - pose proof (prefix_across sep p "" b Hp) as Hfront.
    cbn [append] in Hfront. cbn [append strings_Contains].
    rewrite Hfront. now rewrite orb_false_r.
  - change (String x a ++ String sep b) with (String x (a ++ String sep b)).
    cbn [strings_Contains].
    change (String x (a ++ String sep b)) with (String x a ++ String sep b).
    rewrite (prefix_across sep p (String x a) b Hp), IH.
    now rewrite orb_assoc.
Qed.

Section Properties.

Context {ASTNode : Type}.
Variable ASTNode_Eval : ASTNode -> string.

(** C1.  [SQLSelect.Eval] returns exactly: [SELECT ], then [DISTINCT ]
    iff [Distinct] is set, then the projection items joined by a comma
    and a space, then [ FROM <relation>] iff [Relation] is present,
    then the render of every join in list order with nothing between
    them, then [ WHERE <predicate>] iff [Selection] is present, then
    [ GROUP BY <expressions joined by a comma and a space>] iff
    [GroupBy] is non-empty, then [ HAVING <predicate>] iff [Having] is
    present; nothing precedes or follows. *)
Theorem SQLSelect_Eval_layout (s : SQLSelect ASTNode) :
  SQLSelect_Eval ASTNode_Eval s
  = "SELECT "
    ++ (if SQLSelect_Distinct s then "DISTINCT " else "")
    ++ String.concat ", " (map (SQLSelectItem_Eval ASTNode_Eval) (SQLSelect_Projection s))
    ++ match SQLSelect_Relation s with
       | Some r => " FROM " ++ TableFactor_Eval ASTNode_Eval r
       | None => ""
       end
    ++ String.concat "" (map (Join_Eval ASTNode_Eval) (SQLSelect_Joins s))
    ++ match SQLSelect_Selection s with
       | Some p => " WHERE " ++ ASTNode_Eval p
       | None => ""
       end
    ++ match SQLSelect_GroupBy s with
       | [] => ""
       | _ :: _ => " GROUP BY " ++ String.concat ", " (map ASTNode_Eval (SQLSelect_GroupBy s))
       end
    ++ match SQLSelect_Having s with
       | Some p => " HAVING " ++ ASTNode_Eval p
       | None => ""
       end.
Proof.
  destruct s as [Distinct Projection Relation Joins Selection GroupBy Having].
  cbn [SQLSelect_Distinct SQLSelect_Projection SQLSelect_Relation SQLSelect_Joins
       SQLSelect_Selection SQLSelect_GroupBy SQLSelect_Having].
  cbn [SQLSelect_Eval].
  rewrite range_append.
  unfold commaSeparatedString, strings_Join.
  destruct Distinct, Relation, Selection, GroupBy, Having;
    string_normalize; reflexivity.
Qed.

(** C2.  [SQLQuery.Eval] returns exactly: when [CTEs] is non-empty,
    [WITH ] followed by the CTEs, each rendered [<alias> AS (<query>)]
    and joined by a comma and a space, followed by one space; then the
    render of the body; then [ ORDER BY <order-by expressions joined by
    a comma and a space>] iff [OrderBy] is non-empty; then
    [ LIMIT <limit>] iff [Limit] is present. *)
Theorem SQLQuery_Eval_layout (s : SQLQuery ASTNode) :
  SQLQuery_Eval ASTNode_Eval s
  = match SQLQuery_CTEs s with
    | [] => ""
    | _ :: _ =>
        "WITH "
        ++ String.concat ", "
             (map (fun cte =>
                     SQLIdent_Eval (CTE_Alias cte) ++ " AS ("
                     ++ SQLQuery_Eval ASTNode_Eval (CTE_Query cte) ++ ")")
                  (SQLQuery_CTEs s))
        ++ " "
    end
    ++ SQLSetExpr_Eval ASTNode_Eval (SQLQuery_Body s)
    ++ match SQLQuery_OrderBy s with
       | [] => ""
       | _ :: _ =>
           " ORDER BY "
           ++ String.concat ", "
                (map (SQLOrderByExpr_Eval ASTNode_Eval) (SQLQuery_OrderBy s))
       end
    ++ match SQLQuery_Limit s with
       | Some l => " LIMIT " ++ ASTNode_Eval l
       | None => ""
       end.
Proof.
  destruct s as [CTEs Body OrderBy Limit].
  cbn [SQLQuery_CTEs SQLQuery_Body SQLQuery_OrderBy SQLQuery_Limit].
  cbn [SQLQuery_Eval].
  rewrite (range_collect _
             (fun cte =>
                SQLIdent_Eval (CTE_Alias cte) ++ " AS ("
                ++ SQLQuery_Eval ASTNode_Eval (CTE_Query cte) ++ ")")).
  2:{ intros acc [Alias Query]. cbn [CTE_Alias CTE_Query].
      reflexivity. }
  unfold commaSeparatedString, strings_Join.
  destruct CTEs, OrderBy, Limit; string_normalize; reflexivity.
Qed.

(** C3.  [Join.Eval] follows the dispatch table on the operator.  With
    [prefix] and [suffix] taken from the constraint, [Inner],
    [LeftOuter], [RightOuter] and [FullOuter] render
    [ <prefix>JOIN <relation><suffix>] with [LEFT ], [RIGHT ] or
    [FULL ] before [JOIN]; [Implicit] renders [, <relation>]; [Cross]
    renders [ CROSS JOIN<relation>] with no space before the relation.
    The constraint gives prefix [NATURAL ] and no suffix for
    [Natural], no prefix and suffix [ ON <predicate>] for [On], no
    prefix and suffix [ USING(<columns joined by comma and space>)]
    for [Using]. *)
Theorem Join_Eval_dispatch (Relation : TableFactor ASTNode)
        (Constant : JoinConstant ASTNode) :
  let relation := TableFactor_Eval ASTNode_Eval Relation in
  let prefix := JoinConstant_Prefix Constant in
  let suffix := JoinConstant_Suffix ASTNode_Eval Constant in
  Join_Eval ASTNode_Eval (mkJoin Relation Inner Constant)
  = " " ++ prefix ++ "JOIN " ++ relation ++ suffix
  /\ Join_Eval ASTNode_Eval (mkJoin Relation LeftOuter Constant)
     = " " ++ prefix ++ "LEFT JOIN " ++ relation ++ suffix
  /\ Join_Eval ASTNode_Eval (mkJoin Relation RightOuter Constant)
     = " " ++ prefix ++ "RIGHT JOIN " ++ relation ++ suffix
  /\ Join_Eval ASTNode_Eval (mkJoin Relation FullOuter Constant)
     = " " ++ prefix ++ "FULL JOIN " ++ relation ++ suffix
  /\ Join_Eval ASTNode_Eval (mkJoin Relation Implicit Constant)
     = ", " ++ relation
  /\ Join_Eval ASTNode_Eval (mkJoin Relation Cross Constant)
     = " CROSS JOIN" ++ relation
  /\ (prefix, suffix)
     = match Constant with
       | NaturalConstant => ("NATURAL ", "")
       | OnJoinConstant Node => ("", " ON " ++ ASTNode_Eval Node)
       | UsingConstant Idents =>
           ("", " USING(" ++ String.concat ", " Idents ++ ")")
       end.
Proof.
  intros relation prefix suffix.
  repeat split;
    try (cbn [Join_Eval]; fold relation prefix suffix; simpl;
         string_normalize; reflexivity).
  subst prefix suffix.
  destruct Constant as [Node | Idents |]; cbn [JoinConstant_Prefix JoinConstant_Suffix].
  - string_normalize. reflexivity.
  - rewrite (range_collect _ (fun i : SQLIdent => i : string))
      by reflexivity.
    rewrite map_id. unfold strings_Join. string_normalize. reflexivity.
  - reflexivity.
Qed.

(** C4, as amended.  With [All = false] a set operation renders as the
    left operand, one space, the operator token, one space, the right
    operand: the node itself puts no [ALL] between operator and right
    operand, and [ALL] occurs in the output exactly when it occurs in
    the render of one of the two operands. *)
Theorem SetOperationExpr_Eval_not_all (Op : SQLSetOperator)
        (Left Right : SQLSetExpr ASTNode) :
  let left := SQLSetExpr_Eval ASTNode_Eval Left in
  let right := SQLSetExpr_Eval ASTNode_Eval Right in
  let out := SQLSetExpr_Eval ASTNode_Eval (SetOperationExpr Op false Left Right) in
  out = left ++ " " ++ SQLSetOperator_Eval Op ++ " " ++ right
  /\ strings_Contains out "ALL"
     = strings_Contains left "ALL" || strings_Contains right "ALL".
Proof.
  intros left right out.
  assert (Hout : out = left ++ " " ++ SQLSetOperator_Eval Op ++ " " ++ right).
  { subst out. cbn [SQLSetExpr_Eval]. fold left right.
    simpl. now rewrite append_nil_r. }
  split; [exact Hout|]. rewrite Hout.
  change (left ++ " " ++ SQLSetOperator_Eval Op ++ " " ++ right)
    with (left ++ String " " (SQLSetOperator_Eval Op ++ String " " right)).
  rewrite !strings_Contains_across by reflexivity.
  now destruct Op.
Qed.

(** C5.  With [All = true] a set operation renders as the left
    operand, one space, the operator token, one space, [ALL], one
    space, the right operand. *)
Theorem SetOperationExpr_Eval_all (Op : SQLSetOperator)
        (Left Right : SQLSetExpr ASTNode) :
  SQLSetExpr_Eval ASTNode_Eval (SetOperationExpr Op true Left Right)
  = SQLSetExpr_Eval ASTNode_Eval Left ++ " "
    ++ SQLSetOperator_Eval Op ++ " " ++ "ALL" ++ " "
    ++ SQLSetExpr_Eval ASTNode_Eval Right.
Proof.
  cbn [SQLSetExpr_Eval]. simpl. now rewrite append_nil_r.
Qed.

(** C6.  A query with no CTEs, no order-by list and no limit renders
    exactly as its body. *)
Theorem SQLQuery_Eval_bare (s : SQLQuery ASTNode) :
  SQLQuery_CTEs s = [] ->
  SQLQuery_OrderBy s = [] ->
  SQLQuery_Limit s = None ->
  SQLQuery_Eval ASTNode_Eval s = SQLSetExpr_Eval ASTNode_Eval (SQLQuery_Body s).
Proof.
  destruct s as [CTEs Body OrderBy Limit]; simpl.
  intros -> -> ->. reflexivity.
Qed.

(** C7.  [SQLOrderByExpr.Eval] returns the bare render of the
    expression when [ASC] is nil, that render followed by [ ASC] when
    [ASC] points to [true], and followed by [ DESC] when it points to
    [false].  In the nil case nothing is added, so [ASC] or [DESC]
    occurs in the output only if the expression itself renders it. *)
Theorem SQLOrderByExpr_Eval_direction (Expr : ASTNode) :
  SQLOrderByExpr_Eval ASTNode_Eval (mkSQLOrderByExpr Expr None)
  = ASTNode_Eval Expr
  /\ SQLOrderByExpr_Eval ASTNode_Eval (mkSQLOrderByExpr Expr (Some true))
     = ASTNode_Eval Expr ++ " ASC"
  /\ SQLOrderByExpr_Eval ASTNode_Eval (mkSQLOrderByExpr Expr (Some false))
     = ASTNode_Eval Expr ++ " DESC"
  /\ (forall token,
        strings_Contains
          (SQLOrderByExpr_Eval ASTNode_Eval (mkSQLOrderByExpr Expr None)) token
        = strings_Contains (ASTNode_Eval Expr) token).
Proof.
  unfold SQLOrderByExpr_Eval; cbn [OrderBy_ASC OrderBy_Expr].
  repeat split; simpl; now rewrite ?append_nil_r.
Qed.

(** C8.  Two joins with the same relation and the same operator,
    [Cross] or [Implicit], render identically whatever constraint each
    carries. *)
Theorem Join_Eval_ignores_constant (j1 j2 : Join ASTNode) :
  Join_Relation j1 = Join_Relation j2 ->
  Join_Op j1 = Join_Op j2 ->
  Join_Op j1 = Cross \/ Join_Op j1 = Implicit ->
  Join_Eval ASTNode_Eval j1 = Join_Eval ASTNode_Eval j2.
Proof.
  destruct j1 as [Relation1 Op1 Constant1], j2 as [Relation2 Op2 Constant2].
  cbn [Join_Relation Join_Op]. intros -> <- [-> | ->]; reflexivity.
Qed.

(** C9.  A join whose operator is none of the six named constants
    renders as the empty string. *)
Theorem Join_Eval_unknown_operator (j : Join ASTNode) :
  Join_Op j <> Inner ->
  Join_Op j <> LeftOuter ->
  Join_Op j <> RightOuter ->
  Join_Op j <> FullOuter ->
  Join_Op j <> Implicit ->
  Join_Op j <> Cross ->
  Join_Eval ASTNode_Eval j = "".
Proof.
  destruct j as [Relation Op Constant]. cbn [Join_Op Join_Eval].
  intros HInner HLeft HRight HFull HImplicit HCross.
  apply Z.eqb_neq in HInner, HLeft, HRight, HFull, HImplicit, HCross.
  now rewrite HInner, HCross, HImplicit, HLeft, HRight, HFull.
Qed.

(** C10.  A select without relation but with joins still renders: no
    [ FROM ] clause is emitted and the render of every join follows
    the projection list directly. *)
Theorem SQLSelect_Eval_joins_without_relation (s : SQLSelect ASTNode) :
  SQLSelect_Relation s = None ->
  SQLSelect_Joins s <> [] ->
  SQLSelect_Eval ASTNode_Eval s
  = "SELECT "
    ++ (if SQLSelect_Distinct s then "DISTINCT " else "")
    ++ commaSeparatedString (SQLSelectItem_Eval ASTNode_Eval) (SQLSelect_Projection s)
    ++ String.concat "" (map (Join_Eval ASTNode_Eval) (SQLSelect_Joins s))
    ++ match SQLSelect_Selection s with
       | Some p => " WHERE " ++ ASTNode_Eval p
       | None => ""
       end
    ++ match SQLSelect_GroupBy s with
       | [] => ""
       | _ :: _ => " GROUP BY " ++ commaSeparatedString ASTNode_Eval (SQLSelect_GroupBy s)
       end
    ++ match SQLSelect_Having s with
       | Some p => " HAVING " ++ ASTNode_Eval p
       | None => ""
       end.
Proof.
  destruct s as [Distinct Projection Relation Joins Selection GroupBy Having].
  cbn [SQLSelect_Distinct SQLSelect_Projection SQLSelect_Relation SQLSelect_Joins
       SQLSelect_Selection SQLSelect_GroupBy SQLSelect_Having].
  intros -> _. cbn [SQLSelect_Eval].
  rewrite range_append.
  destruct Distinct, Selection, GroupBy, Having;
    string_normalize; reflexivity.
Qed.

End Properties.

(** ** Concrete instances *)

(** C4, as the claim states it, fails: a [UNION ALL] nested as the left
    operand of a plain [UNION] puts [ALL] into the output of a set
    operation whose own [All] flag is false. *)
Lemma SetOperationExpr_not_all_output_contains_ALL :
  Fixtures.union_all_then_union
  = SetOperationExpr UnionOperator false
      (SetOperationExpr UnionOperator true
         (SelectExpr Fixtures.star) (SelectExpr Fixtures.star))
      (SelectExpr Fixtures.star)
  /\ SQLSetExpr_Eval TextNode_Eval Fixtures.union_all_then_union
     = "SELECT * UNION ALL SELECT * UNION SELECT *"
  /\ strings_Contains
       (SQLSetExpr_Eval TextNode_Eval Fixtures.union_all_then_union) "ALL"
     = true.
Proof. repeat split. Qed.

Lemma SQLQuery_Eval_bare_witness :
  SQLQuery_CTEs Fixtures.regional_sales = []
  /\ SQLQuery_OrderBy Fixtures.regional_sales = []
  /\ SQLQuery_Limit Fixtures.regional_sales = None
  /\ SQLQuery_Eval TextNode_Eval Fixtures.regional_sales
     = SQLSetExpr_Eval TextNode_Eval (SQLQuery_Body Fixtures.regional_sales).
Proof.
  split; [reflexivity|]. split; [reflexivity|]. split; [reflexivity|].
  apply (SQLQuery_Eval_bare TextNode_Eval Fixtures.regional_sales); reflexivity.
Defined.

Lemma Join_Eval_ignores_constant_witness :
  Join_Relation Fixtures.cross_join_on = Join_Relation Fixtures.cross_join_natural
  /\ Join_Op Fixtures.cross_join_on = Join_Op Fixtures.cross_join_natural
  /\ Join_Op Fixtures.cross_join_on = Cross
  /\ Join_Constant Fixtures.cross_join_on <> Join_Constant Fixtures.cross_join_natural
  /\ Join_Eval TextNode_Eval Fixtures.cross_join_on
     = Join_Eval TextNode_Eval Fixtures.cross_join_natural.
Proof.
  split; [reflexivity|]. split; [reflexivity|]. split; [reflexivity|].
  split; [simpl; discriminate|].
  apply (Join_Eval_ignores_constant TextNode_Eval
           Fixtures.cross_join_on Fixtures.cross_join_natural);
    [reflexivity | reflexivity | left; reflexivity].
Defined.

Lemma Join_Eval_unknown_operator_witness :
  Join_Op Fixtures.unknown_join = 6%Z
  /\ Join_Eval TextNode_Eval Fixtures.unknown_join = "".
Proof.
  split; [reflexivity|].
  apply (Join_Eval_unknown_operator TextNode_Eval Fixtures.unknown_join);
    simpl; unfold Inner, LeftOuter, RightOuter, FullOuter, Implicit, Cross; lia.
Defined.

Lemma SQLSelect_Eval_joins_without_relation_witness :
  SQLSelect_Relation Fixtures.joins_without_relation = None
  /\ SQLSelect_Joins Fixtures.joins_without_relation <> []
  /\ SQLSelect_Eval TextNode_Eval Fixtures.joins_without_relation
     = "SELECT a JOIN t USING(id, k)".
Proof.
  split; [reflexivity|]. split; [simpl; discriminate|].
  rewrite (SQLSelect_Eval_joins_without_relation TextNode_Eval
             Fixtures.joins_without_relation);
    [reflexivity | reflexivity | simpl; discriminate].
Defined.

(** * Further properties of [query.go] *)

(** ** More string lemmas *)

Lemma append_length (a b : string) :
  String.length (a ++ b) = String.length a + String.length b.
Proof.
  induction a as [|ch a IH]; simpl; [reflexivity | now rewrite IH].
Qed.

Lemma append_inj_l (a b c : string) : a ++ b = a ++ c -> b = c.
Proof.
  induction a as [|ch a IH]; simpl; intros H.
  - exact H.
  - injection H as H. now apply IH.
Qed.

(** Nothing non-empty can be put in front of a string without changing
    it. *)
Lemma append_front_neq (front s : string) : front <> "" -> front ++ s <> s.
Proof.
  intros Hfront H. apply (f_equal String.length) in H.
  rewrite append_length in H. destruct front; [now elim Hfront|].
  simpl in H. lia.
Qed.

Lemma append_back_neq (s back : string) : back <> "" -> s ++ back <> s.
Proof.
  intros Hback H. apply (f_equal String.length) in H.
  rewrite append_length in H. destruct back; [now elim Hback|].
  simpl in H. lia.
Qed.

Lemma append_eq_nil (a b : string) : a ++ b = "" -> a = "" /\ b = "".
Proof.
  destruct a; simpl; [now split | discriminate].
Qed.

Lemma concat_cons_cons (sep x y : string) (l : list string) :
  String.concat sep (x :: y :: l) = x ++ sep ++ String.concat sep (y :: l).
Proof. reflexivity. Qed.

(** Every element of a joined list occurs in the result. *)
Lemma concat_In_split (sep x : string) (l : list string) :
  In x l -> exists a b, String.concat sep l = a ++ x ++ b.
Proof.
  induction l as [|y l IH]; intros Hin; [contradiction|].
  destruct l as [|z l].
  - destruct Hin as [->|[]]. exists "", "". simpl. now rewrite append_nil_r.
  - rewrite concat_cons_cons. destruct Hin as [->|Hin].
    + exists "", (sep ++ String.concat sep (z :: l)). reflexivity.
    + destruct (IH Hin) as [a [b Hab]]. rewrite Hab.
      exists (y ++ sep ++ a), b. now rewrite !append_assoc.
Qed.

Lemma known_operator_cases (op : JoinOperator) :
  known_operator op = true ->
  op = Inner \/ op = LeftOuter \/ op = RightOuter
  \/ op = FullOuter \/ op = Implicit \/ op = Cross.
Proof.
  unfold known_operator, JoinOperators. cbn [existsb].
  rewrite !orb_true_iff, !Z.eqb_eq. intuition discriminate.
Qed.

Section Coverage.

Context {ASTNode : Type}.
Variable ASTNode_Eval : ASTNode -> string.

(** X1.  [Table.Eval] prints the name, then the parenthesised call
    arguments iff there are any, then [ AS <alias>] iff an alias is set,
    then [ WITH (<hints>)] iff there are hints, in that order. *)
Theorem Table_Eval_layout (Name : SQLObjectName) (Alias : option SQLIdent)
        (Args WithHints : list ASTNode) :
  TableFactor_Eval ASTNode_Eval (Table Name Alias Args WithHints)
  = SQLObjectName_Eval Name
    ++ match Args with
       | [] => ""
       | _ :: _ => "(" ++ commaSeparatedString ASTNode_Eval Args ++ ")"
       end
    ++ match Alias with
       | Some a => " AS " ++ SQLIdent_Eval a
       | None => ""
       end
    ++ match WithHints with
       | [] => ""
       | _ :: _ => " WITH (" ++ commaSeparatedString ASTNode_Eval WithHints ++ ")"
       end.
Proof.
  cbn [TableFactor_Eval].
  generalize (SQLObjectName_Eval Name) as name.
  generalize (commaSeparatedString ASTNode_Eval Args) as args.
  generalize (commaSeparatedString ASTNode_Eval WithHints) as hints.
  intros hints args name.
  destruct Args, Alias, WithHints; string_normalize; reflexivity.
Qed.

(** X2.  [Derived.Eval] prints the sub-query bare, followed by
    [ AS <alias>] iff an alias is set: it adds no parentheses.  The
    parenthesised form is what [QueryExpr.Eval] prints, which is the
    alias-free derived table between [(] and [)]. *)
Theorem Derived_Eval_unparenthesized (SubQuery : SQLQuery ASTNode)
        (Alias : option SQLIdent) :
  TableFactor_Eval ASTNode_Eval (Derived SubQuery Alias)
  = SQLQuery_Eval ASTNode_Eval SubQuery
    ++ match Alias with
       | Some a => " AS " ++ SQLIdent_Eval a
       | None => ""
       end
  /\ SQLSetExpr_Eval ASTNode_Eval (QueryExpr SubQuery)
     = "(" ++ TableFactor_Eval ASTNode_Eval (Derived SubQuery None) ++ ")".
Proof.
  split.
  - destruct Alias; simpl; string_normalize; reflexivity.
  - reflexivity.
Qed.

(** X3.  A join constraint contributes text on exactly one side of the
    relation: its prefix is empty exactly when its suffix is not. *)
Theorem JoinConstant_one_side (c : JoinConstant ASTNode) :
  JoinConstant_Prefix c = "" <-> JoinConstant_Suffix ASTNode_Eval c <> "".
Proof.
  destruct c as [Node | Idents |]; cbn [JoinConstant_Prefix JoinConstant_Suffix].
  - split; [intros _; simpl; discriminate | reflexivity].
  - split; [intros _; simpl; discriminate | reflexivity].
  - split; [discriminate | intros H; now elim H].
Qed.

(** X4.  A join renders as the empty string exactly when its operator
    is none of the six named constants: a join with a named operator
    always prints something. *)
Theorem Join_Eval_empty_iff (j : Join ASTNode) :
  Join_Eval ASTNode_Eval j = "" <-> known_operator (Join_Op j) = false.
Proof.
  destruct j as [Relation Op Constant]. cbn [Join_Op Join_Eval].
  unfold known_operator, JoinOperators. cbn [existsb].
  destruct (Z.eqb Op Inner); [split; [simpl|]; discriminate|].
  destruct (Z.eqb Op Cross);
    [rewrite !orb_true_r; split; [simpl|]; discriminate|].
  destruct (Z.eqb Op Implicit);
    [rewrite !orb_true_r; split; [simpl|]; discriminate|].
  destruct (Z.eqb Op LeftOuter); [split; [simpl|]; discriminate|].
  destruct (Z.eqb Op RightOuter); [split; [simpl|]; discriminate|].
  destruct (Z.eqb Op FullOuter); [split; [simpl|]; discriminate|].
  split; reflexivity.
Qed.

(** For a fixed relation and constraint the named operator can be read
    back from the text of a join. *)
Lemma Join_Eval_operator_inj (Relation : TableFactor ASTNode)
        (Constant : JoinConstant ASTNode) (Op1 Op2 : JoinOperator) :
  known_operator Op1 = true ->
  known_operator Op2 = true ->
  Join_Eval ASTNode_Eval (mkJoin Relation Op1 Constant)
  = Join_Eval ASTNode_Eval (mkJoin Relation Op2 Constant) ->
  Op1 = Op2.
Proof.
  intros H1 H2.
  apply known_operator_cases in H1. apply known_operator_cases in H2.
  cbn [Join_Eval].
  generalize (TableFactor_Eval ASTNode_Eval Relation) as relation.
  generalize (JoinConstant_Suffix ASTNode_Eval Constant) as suffix.
  intros suffix relation.
  destruct H1 as [-> | [-> | [-> | [-> | [-> | ->]]]]];
    destruct H2 as [-> | [-> | [-> | [-> | [-> | ->]]]]];
    try reflexivity;
    destruct Constant; simpl; intros H; discriminate H.
Qed.

(** For a fixed expression the direction can be read back from the
    text of an order-by expression. *)
Lemma SQLOrderByExpr_Eval_direction_inj (Expr : ASTNode)
        (ASC1 ASC2 : option bool) :
  SQLOrderByExpr_Eval ASTNode_Eval (mkSQLOrderByExpr Expr ASC1)
  = SQLOrderByExpr_Eval ASTNode_Eval (mkSQLOrderByExpr Expr ASC2) ->
  ASC1 = ASC2.
Proof.
  unfold SQLOrderByExpr_Eval; cbn [OrderBy_ASC OrderBy_Expr].
  generalize (ASTNode_Eval Expr) as e. intros e.
  assert (Hasc : e ++ " ASC" <> e) by (apply append_back_neq; discriminate).
  assert (Hdesc : e ++ " DESC" <> e) by (apply append_back_neq; discriminate).
  destruct ASC1 as [[|]|], ASC2 as [[|]|]; simpl; rewrite ?append_nil_r;
    intros H; try reflexivity.
  - apply append_inj_l in H. discriminate H.
  - now elim Hasc.
  - apply append_inj_l in H. discriminate H.
  - now elim Hdesc.
  - symmetry in H. now elim Hasc.
  - symmetry in H. now elim Hdesc.
Qed.

(** For fixed operands the operator and the [All] flag can be read back
    from the text of a set operation. *)
Lemma SetOperationExpr_Eval_operator_inj
        (Left Right : SQLSetExpr ASTNode)
        (Op1 Op2 : SQLSetOperator) (All1 All2 : bool) :
  SQLSetExpr_Eval ASTNode_Eval (SetOperationExpr Op1 All1 Left Right)
  = SQLSetExpr_Eval ASTNode_Eval (SetOperationExpr Op2 All2 Left Right) ->
  Op1 = Op2 /\ All1 = All2.
Proof.
  cbn [SQLSetExpr_Eval].
  generalize (SQLSetExpr_Eval ASTNode_Eval Left) as l.
  generalize (SQLSetExpr_Eval ASTNode_Eval Right) as r.
  intros r l.
  assert (Hall : "ALL " ++ r <> r) by (apply append_front_neq; discriminate).
  destruct Op1, Op2, All1, All2; simpl; rewrite ?append_nil_r; intros H;
    try (split; reflexivity);
    apply append_inj_l in H; try discriminate H;
    injection H as H; try (now elim Hall); symmetry in H; now elim Hall.
Qed.

(** X5.  For a fixed relation and constraint, two different named
    operators never print the same join text. *)
Theorem Join_Eval_operators_differ (Relation : TableFactor ASTNode)
        (Constant : JoinConstant ASTNode) (Op1 Op2 : JoinOperator) :
  known_operator Op1 = true ->
  known_operator Op2 = true ->
  Op1 <> Op2 ->
  Join_Eval ASTNode_Eval (mkJoin Relation Op1 Constant)
  <> Join_Eval ASTNode_Eval (mkJoin Relation Op2 Constant).
Proof.
  intros H1 H2 Hne Heq. apply Hne.
  exact (Join_Eval_operator_inj Relation Constant Op1 Op2 H1 H2 Heq).
Qed.

(** X6.  For a fixed expression, the three directions (unset,
    ascending, descending) print three different texts. *)
Theorem SQLOrderByExpr_Eval_directions_differ (Expr : ASTNode)
        (ASC1 ASC2 : option bool) :
  ASC1 <> ASC2 ->
  SQLOrderByExpr_Eval ASTNode_Eval (mkSQLOrderByExpr Expr ASC1)
  <> SQLOrderByExpr_Eval ASTNode_Eval (mkSQLOrderByExpr Expr ASC2).
Proof.
  intros Hne Heq. apply Hne.
  exact (SQLOrderByExpr_Eval_direction_inj Expr ASC1 ASC2 Heq).
Qed.

(** X7.  For fixed operands, two set operations that differ in the
    operator or in the [All] flag never print the same text. *)
Theorem SetOperationExpr_Eval_operators_differ
        (Left Right : SQLSetExpr ASTNode)
        (Op1 Op2 : SQLSetOperator) (All1 All2 : bool) :
  (Op1, All1) <> (Op2, All2) ->
  SQLSetExpr_Eval ASTNode_Eval (SetOperationExpr Op1 All1 Left Right)
  <> SQLSetExpr_Eval ASTNode_Eval (SetOperationExpr Op2 All2 Left Right).
Proof.
  intros Hne Heq. apply Hne.
  destruct (SetOperationExpr_Eval_operator_inj Left Right Op1 Op2 All1 All2 Heq)
    as [-> ->].
  reflexivity.
Qed.

(** X8.  [SetOperationExpr.Eval] never adds parentheses, so the
    grouping of nested set operations is not visible in the text: the
    left-nested and the right-nested tree over the same three operands
    print the same string. *)
Theorem SetOperationExpr_Eval_regroup (Op1 Op2 : SQLSetOperator)
        (All1 All2 : bool) (x y z : SQLSetExpr ASTNode) :
  SQLSetExpr_Eval ASTNode_Eval
    (SetOperationExpr Op1 All1 (SetOperationExpr Op2 All2 x y) z)
  = SQLSetExpr_Eval ASTNode_Eval
      (SetOperationExpr Op2 All2 x (SetOperationExpr Op1 All1 y z)).
Proof.
  cbn [SQLSetExpr_Eval].
  generalize (SQLSetExpr_Eval ASTNode_Eval x) as tx.
  generalize (SQLSetExpr_Eval ASTNode_Eval y) as ty.
  generalize (SQLSetExpr_Eval ASTNode_Eval z) as tz.
  intros tz ty tx.
  destruct Op1, Op2, All1, All2; string_normalize; reflexivity.
Qed.

(** ** Selects *)

(** The text of a select is the text of the same select without joins
    and trailing clauses, then the joins, then a tail that does not
    depend on the joins. *)
Lemma SQLSelect_Eval_around_joins (Distinct : bool)
      (Projection : list (SQLSelectItem ASTNode))
      (Relation : option (TableFactor ASTNode))
      (Selection : option ASTNode) (GroupBy : list ASTNode)
      (Having : option ASTNode) :
  exists tail, forall Joins,
    SQLSelect_Eval ASTNode_Eval
      (mkSQLSelect Distinct Projection Relation Joins Selection GroupBy Having)
    = SQLSelect_Eval ASTNode_Eval
        (mkSQLSelect Distinct Projection Relation [] None [] None)
      ++ String.concat "" (map (Join_Eval ASTNode_Eval) Joins) ++ tail.
Proof.
  destruct Selection, GroupBy, Having; eexists; intros Joins;
    cbn [SQLSelect_Eval fold_left List.length Nat.eqb negb];
    rewrite range_append, ?append_assoc;
    try reflexivity.
  symmetry. rewrite append_nil_r. reflexivity.
Qed.

Lemma SQLSelect_Eval_starts (s : SQLSelect ASTNode) :
  exists rest,
    SQLSelect_Eval ASTNode_Eval s
    = (if SQLSelect_Distinct s then "SELECT DISTINCT " else "SELECT ") ++ rest.
Proof.
  destruct s as [Distinct Projection Relation Joins Selection GroupBy Having].
  destruct (SQLSelect_Eval_around_joins Distinct Projection Relation
              Selection GroupBy Having) as [tail Htail].
  rewrite Htail. cbn [SQLSelect_Distinct].
  destruct Distinct, Relation; eexists; simpl; reflexivity.
Qed.

(** Joins with an unknown operator contribute nothing to the
    concatenation of the joins. *)
Lemma joins_concat_known (Joins : list (Join ASTNode)) :
  String.concat "" (map (Join_Eval ASTNode_Eval) Joins)
  = String.concat ""
      (map (Join_Eval ASTNode_Eval)
           (filter (fun j => known_operator (Join_Op j)) Joins)).
Proof.
  induction Joins as [|j Joins IH]; [reflexivity|].
  cbn [map filter]. rewrite concat_nosep_cons, IH.
  destruct (known_operator (Join_Op j)) eqn:Hop.
  - cbn [map]. now rewrite concat_nosep_cons.
  - destruct j as [Relation Op Constant]. cbn [Join_Op] in Hop.
    unfold known_operator, JoinOperators in Hop. cbn [existsb] in Hop.
    repeat (apply orb_false_iff in Hop; destruct Hop as [? Hop]).
    cbn [Join_Eval].
    repeat match goal with H : Z.eqb _ _ = false |- _ => rewrite H; clear H end.
    reflexivity.
Qed.

(** A relation followed by implicit joins is a comma-separated list. *)
Lemma implicit_joins_concat (relation : string) (Joins : list (Join ASTNode)) :
  Forall (fun j => Join_Op j = Implicit) Joins ->
  relation ++ String.concat "" (map (Join_Eval ASTNode_Eval) Joins)
  = String.concat ", "
      (relation
         :: map (fun j => TableFactor_Eval ASTNode_Eval (Join_Relation j)) Joins).
Proof.
  intros Hall. revert relation.
  induction Hall as [|j Joins Hj _ IH]; intros relation.
  - simpl. apply append_nil_r.
  - destruct j as [Relation Op Constant]. cbn [Join_Op] in Hj. subst Op.
    cbn [map Join_Relation]. rewrite concat_nosep_cons, concat_cons_cons.
    rewrite <- IH. cbn [Join_Eval]. simpl. now rewrite append_nil_r.
Qed.

(** X9.  The text of a select begins with [SELECT ], and with
    [SELECT DISTINCT ] when [Distinct] is set, whatever the rest of the
    node holds. *)
Theorem SQLSelect_Eval_starts_with_SELECT (s : SQLSelect ASTNode) :
  String.prefix (if SQLSelect_Distinct s then "SELECT DISTINCT " else "SELECT ")
    (SQLSelect_Eval ASTNode_Eval s)
  = true.
Proof.
  apply prefix_iff. apply SQLSelect_Eval_starts.
Qed.

(** X10.  Appending a join to a select that has no [WHERE], [GROUP BY]
    or [HAVING] appends the text of that join to the text of the
    select. *)
Theorem SQLSelect_Eval_append_join (Distinct : bool)
        (Projection : list (SQLSelectItem ASTNode))
        (Relation : option (TableFactor ASTNode))
        (Joins : list (Join ASTNode)) (j : Join ASTNode) :
  SQLSelect_Eval ASTNode_Eval
    (mkSQLSelect Distinct Projection Relation (Joins ++ [j])%list None [] None)
  = SQLSelect_Eval ASTNode_Eval
      (mkSQLSelect Distinct Projection Relation Joins None [] None)
    ++ Join_Eval ASTNode_Eval j.
Proof.
  cbn [SQLSelect_Eval List.length Nat.eqb negb].
  rewrite fold_left_app. reflexivity.
Qed.

(** X11.  When every join of a select is [Implicit], the relation and
    the joined relations print as one comma-separated list after
    [ FROM ]. *)
Theorem SQLSelect_Eval_implicit_joins (Distinct : bool)
        (Projection : list (SQLSelectItem ASTNode))
        (Relation : TableFactor ASTNode) (Joins : list (Join ASTNode))
        (Selection : option ASTNode) (GroupBy : list ASTNode)
        (Having : option ASTNode) :
  Forall (fun j => Join_Op j = Implicit) Joins ->
  SQLSelect_Eval ASTNode_Eval
    (mkSQLSelect Distinct Projection (Some Relation) Joins Selection GroupBy Having)
  = "SELECT "
    ++ (if Distinct then "DISTINCT " else "")
    ++ commaSeparatedString (SQLSelectItem_Eval ASTNode_Eval) Projection
    ++ " FROM "
    ++ String.concat ", "
         (map (TableFactor_Eval ASTNode_Eval)
              (Relation :: map Join_Relation Joins))
    ++ match Selection with
       | Some p => " WHERE " ++ ASTNode_Eval p
       | None => ""
       end
    ++ match GroupBy with
       | [] => ""
       | _ :: _ => " GROUP BY " ++ commaSeparatedString ASTNode_Eval GroupBy
       end
    ++ match Having with
       | Some p => " HAVING " ++ ASTNode_Eval p
       | None => ""
       end.
Proof.
  intros Hall. cbn [map]. rewrite map_map.
  rewrite <- (implicit_joins_concat _ Joins Hall).
  cbn [SQLSelect_Eval]. rewrite range_append.
  destruct Distinct, Selection, GroupBy, Having;
    string_normalize; reflexivity.
Qed.

(** X12.  Joins whose operator is none of the six named constants are
    dropped silently: a select prints the same text with them as
    without them. *)
Theorem SQLSelect_Eval_drops_unknown_joins (Distinct : bool)
        (Projection : list (SQLSelectItem ASTNode))
        (Relation : option (TableFactor ASTNode)) (Joins : list (Join ASTNode))
        (Selection : option ASTNode) (GroupBy : list ASTNode)
        (Having : option ASTNode) :
  SQLSelect_Eval ASTNode_Eval
    (mkSQLSelect Distinct Projection Relation Joins Selection GroupBy Having)
  = SQLSelect_Eval ASTNode_Eval
      (mkSQLSelect Distinct Projection Relation
         (filter (fun j => known_operator (Join_Op j)) Joins)
         Selection GroupBy Having).
Proof.
  destruct (SQLSelect_Eval_around_joins Distinct Projection Relation
              Selection GroupBy Having) as [tail Htail].
  rewrite (Htail Joins), (Htail (filter _ Joins)).
  now rewrite <- joins_concat_known.
Qed.

(** X13.  The text of every join of a select occurs in the text of the
    select. *)
Theorem SQLSelect_Eval_contains_join (s : SQLSelect ASTNode) (j : Join ASTNode) :
  In j (SQLSelect_Joins s) ->
  strings_Contains (SQLSelect_Eval ASTNode_Eval s) (Join_Eval ASTNode_Eval j)
  = true.
Proof.
  destruct s as [Distinct Projection Relation Joins Selection GroupBy Having].
  cbn [SQLSelect_Joins]. intros Hin.
  destruct (SQLSelect_Eval_around_joins Distinct Projection Relation
              Selection GroupBy Having) as [tail Htail].
  rewrite Htail. apply strings_Contains_iff.
  apply (in_map (Join_Eval ASTNode_Eval)) in Hin.
  destruct (concat_In_split "" _ _ Hin) as [a [b Hab]]. rewrite Hab.
  exists (SQLSelect_Eval ASTNode_Eval
            (mkSQLSelect Distinct Projection Relation [] None [] None) ++ a),
         (b ++ tail).
  now rewrite !append_assoc.
Qed.

(** ** Queries *)

(** The text of a query, clause by clause. *)
Lemma SQLQuery_Eval_parts (CTEs : list (CTE ASTNode)) (Body : SQLSetExpr ASTNode)
      (OrderBy : list (SQLOrderByExpr ASTNode)) (Limit : option ASTNode) :
  SQLQuery_Eval ASTNode_Eval (mkSQLQuery CTEs Body OrderBy Limit)
  = match CTEs with
    | [] => ""
    | _ :: _ =>
        "WITH "
        ++ String.concat ", "
             (map (fun cte =>
                     SQLIdent_Eval (CTE_Alias cte) ++ " AS ("
                     ++ SQLQuery_Eval ASTNode_Eval (CTE_Query cte) ++ ")")
                  CTEs)
        ++ " "
    end
    ++ SQLSetExpr_Eval ASTNode_Eval Body
    ++ match OrderBy with
       | [] => ""
       | _ :: _ =>
           " ORDER BY " ++ commaSeparatedString (SQLOrderByExpr_Eval ASTNode_Eval) OrderBy
       end
    ++ match Limit with
       | Some l => " LIMIT " ++ ASTNode_Eval l
       | None => ""
       end.
Proof.
  cbn [SQLQuery_Eval].
  rewrite (range_collect _
             (fun cte =>
                SQLIdent_Eval (CTE_Alias cte) ++ " AS ("
                ++ SQLQuery_Eval ASTNode_Eval (CTE_Query cte) ++ ")")).
  2:{ intros acc [Alias Query]. reflexivity. }
  unfold strings_Join.
  generalize (commaSeparatedString (SQLOrderByExpr_Eval ASTNode_Eval) OrderBy).
  intros order.
  destruct CTEs, OrderBy, Limit; string_normalize; reflexivity.
Qed.



(** X15.  The text of the body occurs in the text of the query. *)
Theorem SQLQuery_Eval_contains_body (s : SQLQuery ASTNode) :
  strings_Contains (SQLQuery_Eval ASTNode_Eval s)
    (SQLSetExpr_Eval ASTNode_Eval (SQLQuery_Body s))
  = true.
Proof.
  destruct s as [CTEs Body OrderBy Limit]. cbn [SQLQuery_Body].
  rewrite SQLQuery_Eval_parts. apply strings_Contains_iff.
  eexists; eexists; reflexivity.
Qed.

(** X16.  Every CTE of a query occurs in the text of the query as
    [<alias> AS (<text of its query>)]. *)
Theorem SQLQuery_Eval_contains_cte (s : SQLQuery ASTNode) (cte : CTE ASTNode) :
  In cte (SQLQuery_CTEs s) ->
  strings_Contains (SQLQuery_Eval ASTNode_Eval s)
    (SQLIdent_Eval (CTE_Alias cte) ++ " AS ("
     ++ SQLQuery_Eval ASTNode_Eval (CTE_Query cte) ++ ")")
  = true.
Proof.
  destruct s as [CTEs Body OrderBy Limit]. cbn [SQLQuery_CTEs]. intros Hin.
  rewrite SQLQuery_Eval_parts. apply strings_Contains_iff.
  destruct CTEs as [|c0 CTEs]; [contradiction|].
  set (render := fun cte0 : CTE ASTNode =>
                   SQLIdent_Eval (CTE_Alias cte0) ++ " AS ("
                   ++ SQLQuery_Eval ASTNode_Eval (CTE_Query cte0) ++ ")").
  apply (in_map render) in Hin.
  destruct (concat_In_split ", " _ _ Hin) as [a [b Hab]]. rewrite Hab.
  exists ("WITH " ++ a). eexists.
  change (render cte) with
    (SQLIdent_Eval (CTE_Alias cte) ++ " AS ("
     ++ SQLQuery_Eval ASTNode_Eval (CTE_Query cte) ++ ")").
  rewrite !append_assoc. reflexivity.
Qed.

(** X17.  When a select has a relation, [ FROM ] followed by the text
    of the relation occurs in the text of the select. *)
Theorem SQLSelect_Eval_contains_relation (s : SQLSelect ASTNode)
        (r : TableFactor ASTNode) :
  SQLSelect_Relation s = Some r ->
  strings_Contains (SQLSelect_Eval ASTNode_Eval s)
    (" FROM " ++ TableFactor_Eval ASTNode_Eval r)
  = true.
Proof.
  destruct s as [Distinct Projection Relation Joins Selection GroupBy Having].
  cbn [SQLSelect_Relation]. intros ->.
  destruct (SQLSelect_Eval_around_joins Distinct Projection (Some r)
              Selection GroupBy Having) as [tail Htail].
  rewrite Htail. apply strings_Contains_iff.
  exists ((if Distinct then "SELECT DISTINCT " else "SELECT ")
          ++ commaSeparatedString (SQLSelectItem_Eval ASTNode_Eval) Projection).
  exists (String.concat "" (map (Join_Eval ASTNode_Eval) Joins) ++ tail).
  destruct Distinct; simpl; string_normalize; reflexivity.
Qed.

(** X18.  Naming an alias appends [ AS <alias>] to what the node prints
    without it: for a select item, for a table without hints, and for
    a derived table. *)
Theorem Alias_appends_AS (Alias : SQLIdent) (Expr : ASTNode)
        (Name : SQLObjectName) (Args : list ASTNode)
        (SubQuery : SQLQuery ASTNode) :
  SQLSelectItem_Eval ASTNode_Eval (ExpressionWithAlias Expr Alias)
  = SQLSelectItem_Eval ASTNode_Eval (UnnamedExpression Expr)
    ++ " AS " ++ SQLIdent_Eval Alias
  /\ TableFactor_Eval ASTNode_Eval (Table Name (Some Alias) Args [])
     = TableFactor_Eval ASTNode_Eval (Table Name None Args [])
       ++ " AS " ++ SQLIdent_Eval Alias
  /\ TableFactor_Eval ASTNode_Eval (Derived SubQuery (Some Alias))
     = TableFactor_Eval ASTNode_Eval (Derived SubQuery None)
       ++ " AS " ++ SQLIdent_Eval Alias.
Proof.
  split; [|split].
  - simpl. now rewrite append_nil_r.
  - destruct Args; simpl; now rewrite append_nil_r.
  - simpl. now rewrite append_nil_r.
Qed.

End Coverage.

(** ** Concrete instances of the further properties *)

Lemma Join_Eval_operators_differ_witness :
  known_operator Inner = true
  /\ known_operator LeftOuter = true
  /\ Inner <> LeftOuter
  /\ Join_Eval TextNode_Eval (mkJoin Samples.t2 Inner NaturalConstant)
     <> Join_Eval TextNode_Eval (mkJoin Samples.t2 LeftOuter NaturalConstant).
Proof.
  split; [reflexivity|]. split; [reflexivity|]. split; [discriminate|].
  apply (Join_Eval_operators_differ TextNode_Eval Samples.t2 NaturalConstant
           Inner LeftOuter);
    [reflexivity | reflexivity | discriminate].
Defined.

Lemma SQLOrderByExpr_Eval_directions_differ_witness :
  @None bool <> Some true
  /\ SQLOrderByExpr_Eval TextNode_Eval (mkSQLOrderByExpr "product_units" None)
     <> SQLOrderByExpr_Eval TextNode_Eval
          (mkSQLOrderByExpr "product_units" (Some true)).
Proof.
  split; [discriminate|].
  apply (SQLOrderByExpr_Eval_directions_differ TextNode_Eval
           "product_units" None (Some true)).
  discriminate.
Defined.

Lemma SetOperationExpr_Eval_operators_differ_witness :
  (UnionOperator, false) <> (UnionOperator, true)
  /\ SQLSetExpr_Eval TextNode_Eval
       (SetOperationExpr UnionOperator false
          (SelectExpr Fixtures.star) (SelectExpr Fixtures.simple_select))
     <> SQLSetExpr_Eval TextNode_Eval
          (SetOperationExpr UnionOperator true
             (SelectExpr Fixtures.star) (SelectExpr Fixtures.simple_select)).
Proof.
  split; [discriminate|].
  apply (SetOperationExpr_Eval_operators_differ TextNode_Eval
           (SelectExpr Fixtures.star) (SelectExpr Fixtures.simple_select)
           UnionOperator UnionOperator false true).
  discriminate.
Defined.

Lemma SQLSelect_Eval_implicit_joins_witness :
  Forall (fun j : Join TextNode => Join_Op j = Implicit) Samples.implicit_joins
  /\ SQLSelect_Eval TextNode_Eval
       (mkSQLSelect false [Wildcard] (Some Samples.t1) Samples.implicit_joins
          (Some "k = 1") [] None)
     = "SELECT * FROM t1, t2 AS b, s.t3 WHERE k = 1".
Proof.
  assert (Hall : Forall (fun j : Join TextNode => Join_Op j = Implicit)
                   Samples.implicit_joins)
    by (repeat constructor).
  split; [exact Hall|].
  rewrite (SQLSelect_Eval_implicit_joins TextNode_Eval false [Wildcard]
             Samples.t1 Samples.implicit_joins (Some "k = 1") [] None Hall).
  reflexivity.
Defined.

Lemma SQLSelect_Eval_contains_join_witness :
  In Samples.left_join (SQLSelect_Joins Samples.mixed_joins)
  /\ strings_Contains (SQLSelect_Eval TextNode_Eval Samples.mixed_joins)
       (Join_Eval TextNode_Eval Samples.left_join)
     = true.
Proof.
  assert (Hin : In Samples.left_join (SQLSelect_Joins Samples.mixed_joins))
    by (right; left; reflexivity).
  split; [exact Hin|].
  exact (SQLSelect_Eval_contains_join TextNode_Eval Samples.mixed_joins
           Samples.left_join Hin).
Defined.

Lemma SQLQuery_Eval_contains_cte_witness :
  In (mkCTE "a" Fixtures.regional_sales) (SQLQuery_CTEs Samples.with_two_ctes)
  /\ strings_Contains (SQLQuery_Eval TextNode_Eval Samples.with_two_ctes)
       (SQLIdent_Eval (CTE_Alias (mkCTE "a" Fixtures.regional_sales)) ++ " AS ("
        ++ SQLQuery_Eval TextNode_Eval (CTE_Query (mkCTE "a" Fixtures.regional_sales))
        ++ ")")
     = true.
Proof.
  assert (Hin : In (mkCTE "a" Fixtures.regional_sales)
                   (SQLQuery_CTEs Samples.with_two_ctes))
    by (left; reflexivity).
  split; [exact Hin|].
  exact (SQLQuery_Eval_contains_cte TextNode_Eval Samples.with_two_ctes
           (mkCTE "a" Fixtures.regional_sales) Hin).
Defined.

Lemma SQLSelect_Eval_contains_relation_witness :
  SQLSelect_Relation Samples.mixed_joins = Some Samples.t1
  /\ strings_Contains (SQLSelect_Eval TextNode_Eval Samples.mixed_joins)
       (" FROM " ++ TableFactor_Eval TextNode_Eval Samples.t1)
     = true.
Proof.
  split; [reflexivity|].
  apply (SQLSelect_Eval_contains_relation TextNode_Eval Samples.mixed_joins
           Samples.t1).
  reflexivity.
Defined.

(** The samples, printed. *)

Example sample_mixed_joins :
  SQLSelect_Eval TextNode_Eval Samples.mixed_joins
  = "SELECT DISTINCT * FROM t1 LEFT JOIN t2 AS b ON t1.id = b.id WHERE b.k > 0".
Proof. reflexivity. Qed.

Example sample_with_two_ctes :
  SQLQuery_Eval TextNode_Eval Samples.with_two_ctes
  = "WITH a AS (SELECT region, SUM(amount) AS total_sales FROM orders GROUP BY region), b AS (SELECT * LIMIT 1) SELECT test FROM test_table".
Proof. reflexivity. Qed.
